(** * wifi_fuzzer.py: a beacon frame edited in place and replayed

    The script loads a capture with scapy, takes its first frame, assigns
    fields of the frame's information elements and hands the frame to
    [sendp].  The development below embeds the script statement by statement
    in a state-and-exception monad over a store of frame objects, so that
    [frames[0]] and [frame] are the same object, as they are in Python. *)

From Stdlib Require Import ZArith Strings.Byte Strings.String DecimalString.
From stdpp Require Import base list strings.

Local Open Scope Z_scope.

(** ** Data model *)

(** A Python 2 [str] is a sequence of 8-bit characters. *)
Definition str := string.

(** [s * n] on a Python string. *)
Definition str_mul (s : str) (n : Z) : str :=
  String.concat "" (replicate (Z.to_nat n) s).

(** [str(n)] on a Python integer. *)
Definition str_of_int (n : Z) : str := NilZero.string_of_int (Z.to_int n).

(** One [Dot11Elt] layer: the three fields the script reads and writes. *)
Record Dot11Elt := mkElt {
  ID : Z;
  len : Z;
  info : str
}.

(** The fixed part of the frame in front of the information elements. *)
Record Dot11 := mkDot11 {
  addr1 : str;
  addr2 : str;
  addr3 : str;
  SC : Z
}.

Record Frame := mkFrame {
  hdr : Dot11;
  elts : list Dot11Elt
}.

(** The tag scapy's [Dot11Elt.ID] enumeration gives the name ['SSID']. *)
Definition SSID : Z := 0.

Definition with_ID (v : Z) (e : Dot11Elt) : Dot11Elt :=
  {| ID := v; len := len e; info := info e |}.
Definition with_len (v : Z) (e : Dot11Elt) : Dot11Elt :=
  {| ID := ID e; len := v; info := info e |}.
Definition with_info (v : str) (e : Dot11Elt) : Dot11Elt :=
  {| ID := ID e; len := len e; info := v |}.

Definition with_addr2 (v : str) (h : Dot11) : Dot11 :=
  {| addr1 := addr1 h; addr2 := v; addr3 := addr3 h; SC := SC h |}.

Definition with_elts (es : list Dot11Elt) (f : Frame) : Frame :=
  {| hdr := hdr f; elts := es |}.
Definition with_hdr (h : Dot11) (f : Frame) : Frame :=
  {| hdr := h; elts := elts f |}.

(** The length field agrees with the payload. *)
Definition consistent (e : Dot11Elt) : Prop :=
  len e = Z.of_nat (String.length (info e)).

(** ** Store, console and exceptions *)

(** A reference to a frame object. *)
Definition ref := nat.

Inductive out :=
  | Line (s : str)       (* one [print] *)
  | Dump (f : Frame).    (* one [frame.show()] *)

Record State := mkState {
  heap : list Frame;
  stdout : list out
}.

Definition init : State := {| heap := []; stdout := [] |}.

(** What stops the script.  Python raises [IndexError] both for [frames[0]]
    on an empty list and for a layer that is not there; the two places are
    kept apart. *)
Inductive exn :=
  | CaptureReadError     (* rdpcap could not read or parse the file *)
  | EmptyCaptureError    (* IndexError of frames[0] *)
  | LayerNotFound        (* IndexError of frame[Dot11Elt][k] *)
  | InterfaceError.      (* sendp could not open the interface *)

Definition M (A : Type) : Type := State -> (exn + A) * State.

Definition ret {A} (a : A) : M A := fun s => (inr a, s).
Definition raise {A} (e : exn) : M A := fun s => (inl e, s).
Definition bind {A B} (m : M A) (k : A -> M B) : M B :=
  fun s =>
    match m s with
    | (inl e, s') => (inl e, s')
    | (inr a, s') => k a s'
    end.

Declare Scope py_scope.
Delimit Scope py_scope with py.
Notation "'let*' x ':=' m 'in' k" := (bind m (fun x => k))
  (at level 10, x name, m at level 100, k at level 200) : py_scope.
Notation "m ';;' k" := (bind m (fun _ => k))
  (at level 100, k at level 200, right associativity) : py_scope.

Local Open Scope py_scope.

(** ** The statements of the script *)

(** [frames[0]]. *)
Definition select_first {A} (frames : list A) : exn + A :=
  match frames with
  | [] => inl EmptyCaptureError
  | x :: _ => inr x
  end.

Definition lift {A} (r : exn + A) : M A := fun s => (r, s).

(** The objects of a freshly read capture are put in the store; the
    [PacketList] is the list of their references. *)
Definition alloc (fs : list Frame) : M (list ref) := fun s =>
  (inr (seq (length (heap s)) (length fs)),
   {| heap := heap s ++ fs; stdout := stdout s |}).

Definition deref (r : ref) : M Frame := fun s =>
  match heap s !! r with
  | Some f => (inr f, s)
  | None => (inl LayerNotFound, s)
  end.

Definition store (r : ref) (f : Frame) : M unit := fun s =>
  (inr tt, {| heap := <[r := f]> (heap s); stdout := stdout s |}).

Definition emit (o : out) : M unit := fun s =>
  (inr tt, {| heap := heap s; stdout := stdout s ++ [o] |}).

(** [print(s)]. *)
Definition print (s : str) : M unit := emit (Line s).

(** [frame.show()]. *)
Definition show (r : ref) : M unit :=
  let* f := deref r in emit (Dump f).

(** [frame[Dot11Elt][k]]: the k-th layer from the first [Dot11Elt] on. *)
Definition getelt (r : ref) (k : nat) : M Dot11Elt :=
  let* f := deref r in
  match elts f !! k with
  | Some e => ret e
  | None => raise LayerNotFound
  end.

(** [frame[Dot11Elt][k].field = v], for an update [upd] of the one field. *)
Definition setelt (r : ref) (k : nat) (upd : Dot11Elt -> Dot11Elt) : M unit :=
  let* f := deref r in
  match elts f !! k with
  | Some e => store r (with_elts (<[k := upd e]> (elts f)) f)
  | None => raise LayerNotFound
  end.

Definition get_ID (r : ref) (k : nat) : M Z := let* e := getelt r k in ret (ID e).
Definition get_len (r : ref) (k : nat) : M Z := let* e := getelt r k in ret (len e).
Definition get_info (r : ref) (k : nat) : M str := let* e := getelt r k in ret (info e).

Definition set_ID (r : ref) (k : nat) (v : Z) : M unit := setelt r k (with_ID v).
Definition set_len (r : ref) (k : nat) (v : Z) : M unit := setelt r k (with_len v).
Definition set_info (r : ref) (k : nat) (v : str) : M unit := setelt r k (with_info v).

(** [frame.addr2 = v] and [frame.addr2]. *)
Definition set_addr2 (r : ref) (v : str) : M unit :=
  let* f := deref r in store r (with_hdr (with_addr2 v (hdr f)) f).
Definition get_addr2 (r : ref) : M str :=
  let* f := deref r in ret (addr2 (hdr f)).

(** [frame.info] and [frame.len]: attribute lookup walks the layers and stops
    at the first one that has the field, the first information element. *)
Definition frame_info (r : ref) : M str := get_info r 0.
Definition frame_len (r : ref) : M Z := get_len r 0.

(** The call the script ends in. *)
Record sendp_call := mkCall {
  sent : Frame;
  on_iface : str;
  loop : Z;
  inter_ms : Z
}.

Definition iface : str := "wlp2s0".

Definition HR_payload : str :=
  "HR " +:+ String Ascii.zero (String Ascii.zero "$").

Section Script.

(** scapy's part: what [rdpcap] returns for a path, and which interfaces
    [sendp] can open. *)
Variable rdpcap : str -> exn + list Frame.
Variable iface_up : str -> bool.

(** Lines 21-23. *)
Definition load_block : M ref :=
  let* fs := lift (rdpcap "base_packet.pcapng") in
  let* frames := alloc fs in
  let* frame := lift (select_first frames) in
  show frame;;
  ret frame.

(** Lines 27-33. *)
Definition ssid_block (frame : ref) : M unit :=
  let ssid_name := str_mul "A" 32 in
  set_info frame 0 ssid_name;;
  set_len frame 0 32;;
  set_addr2 frame "40:e3:d6:bf:dd:01";;
  (let* v := frame_info frame in print ("SSID " +:+ v));;
  (let* v := get_addr2 frame in print ("AP MAC: " +:+ v));;
  (let* v := frame_len frame in print ("Len: " +:+ str_of_int v)).

(** Lines 38-45; the value is the variable [rates]. *)
Definition reorder_block (frame : ref) : M str :=
  (let* v := get_ID frame 1 in set_ID frame 0 v);;
  (let* v := get_info frame 1 in set_info frame 0 v);;
  let* rates := get_info frame 0 in
  (let* v := get_len frame 1 in set_len frame 0 v);;
  set_ID frame 1 SSID;;
  set_info frame 1 "ABCD";;
  set_len frame 1 4;;
  ret rates.

(** Line 46. *)
Definition rates_block (frame : ref) : M unit :=
  set_info frame 4 HR_payload.

(** Lines 49-50.  With [loop=1] the call does not return; the block's value
    is the call itself. *)
Definition send_block (frame : ref) : M sendp_call :=
  show frame;;
  let* f := deref frame in
  if iface_up iface
  then ret {| sent := f; on_iface := iface; loop := 1; inter_ms := 100 |}
  else raise InterfaceError.

Definition script : M sendp_call :=
  let* frame := load_block in
  ssid_block frame;;
  reorder_block frame;;
  rates_block frame;;
  send_block frame.

Definition run : (exn + sendp_call) * State := script init.

End Script.

(** ** Notions the properties are stated with *)

(** An assignment to one field of one information element, as in
    [frame[Dot11Elt][4].info = ...]. *)
Inductive assignment :=
  | To_ID (v : Z)
  | To_len (v : Z)
  | To_info (v : str).

Definition set_element_field (r : ref) (k : nat) (a : assignment) : M unit :=
  match a with
  | To_ID v => set_ID r k v
  | To_len v => set_len r k v
  | To_info v => set_info r k v
  end.

(** [es'] is [es] with the elements at [i] and [j] exchanged. *)
Definition exchanged (es es' : list Dot11Elt) (i j : nat) : Prop :=
  es' !! i = es !! j /\ es' !! j = es !! i /\
  forall k, k <> i -> k <> j -> es' !! k = es !! k.

(** [h'] has the objects of [h], the one at [r] possibly changed. *)
Definition same_except (r : ref) (h h' : list Frame) : Prop :=
  length h' = length h /\ forall i, i <> r -> h' !! i = h !! i.

(** A computation that writes to no object but [r]. *)
Definition writes_only (r : ref) {A} (m : M A) : Prop :=
  forall s, same_except r (heap s) (heap (snd (m s))).

(** The first element carrying a tag, which is how a station reads the
    network name out of a beacon. *)
Fixpoint find_elt (tag : Z) (es : list Dot11Elt) : option Dot11Elt :=
  match es with
  | [] => None
  | e :: es' => if (ID e =? tag)%Z then Some e else find_elt tag es'
  end.

Definition ssid_of (f : Frame) : option str :=
  info <$> find_elt SSID (elts f).

(** ** The frame on the wire and in the capture file *)

Definition byte_of_Z (z : Z) : option byte :=
  if decide (0 <= z < 256) then Byte.of_N (Z.to_N z) else None.

Definition Z_of_byte (b : byte) : Z := Z.of_N (Byte.to_N b).

(** Tag and length each fit the one byte they have on the wire. *)
Definition byte_fields (e : Dot11Elt) : Prop :=
  0 <= ID e < 256 /\ 0 <= len e < 256.

(** Modelled from the spec: the encoding of an information element, which is
    scapy's and not part of the script.  The spec has an element as a
    tag-length-value record: one tag byte, one length byte, the payload; and
    a frame as a fixed header followed by its elements in order. *)
Definition build_elt (e : Dot11Elt) : option (list byte) :=
  t ← byte_of_Z (ID e);
  l ← byte_of_Z (len e);
  Some (t :: l :: list_byte_of_string (info e)).

Fixpoint build_elts (es : list Dot11Elt) : option (list byte) :=
  match es with
  | [] => Some []
  | e :: es' =>
      w ← build_elt e;
      ws ← build_elts es';
      Some (w ++ ws)
  end.

(** Modelled from the spec: reading one tag-length-value record off the front
    of a byte string; a record cut short is malformed. *)
Definition dissect_elt (w : list byte) : option (Dot11Elt * list byte) :=
  match w with
  | t :: l :: rest =>
      let n := Byte.to_nat l in
      if decide (n <= length rest)%nat
      then Some ({| ID := Z_of_byte t; len := Z_of_byte l;
                    info := string_of_list_byte (take n rest) |},
                 drop n rest)
      else None
  | _ => None
  end.

Fixpoint dissect_elts_fuel (fuel : nat) (w : list byte) : option (list Dot11Elt) :=
  match w with
  | [] => Some []
  | _ =>
      match fuel with
      | O => None
      | S fuel' =>
          '(e, rest) ← dissect_elt w;
          es ← dissect_elts_fuel fuel' rest;
          Some (e :: es)
      end
  end.

(** Every record takes at least two bytes, so the length of the input is fuel
    enough. *)
Definition dissect_elts (w : list byte) : option (list Dot11Elt) :=
  dissect_elts_fuel (length w) w.

(** The [k]-th record of a byte string. *)
Fixpoint dissect_at (k : nat) (w : list byte) : option Dot11Elt :=
  match dissect_elt w with
  | None => None
  | Some (e, rest) =>
      match k with
      | O => Some e
      | S k' => dissect_at k' rest
      end
  end.

(** The number of records a byte string holds, found by hopping from length
    byte to length byte. *)
Fixpoint tlv_count_fuel (fuel : nat) (w : list byte) : option nat :=
  match w with
  | [] => Some O
  | [_] => None
  | _ :: l :: rest =>
      match fuel with
      | O => None
      | S fuel' =>
          if decide (Byte.to_nat l <= length rest)%nat
          then S <$> tlv_count_fuel fuel' (drop (Byte.to_nat l) rest)
          else None
      end
  end.

Definition tlv_count (w : list byte) : option nat :=
  tlv_count_fuel (length w) w.

(** Modelled from the spec: what [rdpcap] finds at a path.  The capture
    format itself is scapy's; the spec has a capture as an ordered sequence of
    raw link-layer frames. *)
Inductive file :=
  | Missing
  | Unreadable
  | NotCapture
  | Capture (raws : list (list byte)).

Section Wire.

(** The codec of the fixed header is scapy's; it is a parameter here. *)
Variable hdr_len : nat.
Variable build_hdr : Dot11 -> list byte.
Variable dissect_hdr : list byte -> option Dot11.

Definition build (f : Frame) : option (list byte) :=
  ws ← build_elts (elts f);
  Some (build_hdr (hdr f) ++ ws).

Definition dissect (w : list byte) : option Frame :=
  h ← dissect_hdr (take hdr_len w);
  es ← dissect_elts (drop hdr_len w);
  Some {| hdr := h; elts := es |}.

(** Modelled from the spec: [load], the spec's name for [rdpcap].  It fails
    with [CaptureReadError] on a file that is missing, unreadable or not a
    capture, and on a capture with a frame that does not parse. *)
Definition load (c : file) : exn + list Frame :=
  match c with
  | Capture raws =>
      match mapM dissect raws with
      | Some fs => inr fs
      | None => inl CaptureReadError
      end
  | _ => inl CaptureReadError
  end.

(** A file the script cannot get a frame from. *)
Definition unusable (c : file) : Prop :=
  match c with
  | Capture raws => raws = [] \/ exists raw, raw ∈ raws /\ dissect raw = None
  | _ => True
  end.

End Wire.

(** ** Sample inputs *)

Definition ex_hdr : Dot11 :=
  {| addr1 := "ff:ff:ff:ff:ff:ff"; addr2 := "00:11:22:33:44:55";
     addr3 := "00:11:22:33:44:55"; SC := 0 |}.

Definition ex_frame : Frame :=
  {| hdr := ex_hdr;
     elts := [ mkElt 0 4 "home"; mkElt 1 2 "ab"; mkElt 3 1 "c";
               mkElt 5 0 ""; mkElt 50 3 "xyz"; mkElt 7 1 "q" ] |}.

Definition ex_frame2 : Frame :=
  {| hdr := ex_hdr; elts := [ mkElt 0 1 "z" ] |}.

(** What the script sends when the capture holds [ex_frame]. *)
Definition ex_sent : Frame :=
  {| hdr := with_addr2 "40:e3:d6:bf:dd:01" ex_hdr;
     elts := [ mkElt 1 2 "ab"; mkElt SSID 4 "ABCD"; mkElt 3 1 "c";
               mkElt 5 0 ""; mkElt 50 3 HR_payload; mkElt 7 1 "q" ] |}.

Definition ex_call : sendp_call :=
  {| sent := ex_sent; on_iface := iface; loop := 1; inter_ms := 100 |}.

Definition ex_final : State :=
  {| heap := [ex_sent];
     stdout := [ Dump ex_frame;
                 Line "SSID AAAAAAAAAAAAAAAAAAAAAAAAAAAAAAAA";
                 Line "AP MAC: 40:e3:d6:bf:dd:01";
                 Line "Len: 32";
                 Dump ex_sent ] |}.

(** A header codec of two bytes that always reads [ex_hdr]. *)
Definition ex_build_hdr (h : Dot11) : list byte := [x80; x00].
Definition ex_dissect_hdr (w : list byte) : option Dot11 := Some ex_hdr.

Definition ex_raw : list byte :=
  [x80; x00; x00; x02] ++ list_byte_of_string "hi" ++ [x01; x01; x82].

(** Frames with too few elements for the script. *)
Definition ex_frame0 : Frame := {| hdr := ex_hdr; elts := [] |}.


(** ** The example kept in the closing string literal

    Lines 57-63 stand in a string after the [sendp] call and are not run.
    The loop that fills the list [ls] is embedded here as it is written. *)

(** [copy.deepcopy(frame)]: a new object with the contents of the old one. *)
Definition deepcopy (r : ref) : M ref :=
  let* f := deref r in
  fun s => (inr (length (heap s)),
            {| heap := heap s ++ [f]; stdout := stdout s |}).

(** [n] rounds of the body of [for i in xrange(1000)], from round [i] on;
    [urandom i] is what [os.urandom(32)] returns in round [i]. *)
Fixpoint fill_ls (urandom : nat -> str) (frame : ref) (n i : nat)
    (ls : list ref) : M (list ref) :=
  match n with
  | O => ret ls
  | S n' =>
      let* newobj := deepcopy frame in
      set_info newobj 0 (urandom i);;
      set_len newobj 0 32;;
      fill_ls urandom frame n' (S i) (ls ++ [newobj])
  end.

(** [ls = []] and the loop. *)
Definition make_ls (urandom : nat -> str) (frame : ref) : M (list ref) :=
  fill_ls urandom frame 1000 0 [].

(** ** Running the statements *)

Lemma bind_inr {A B} (m : M A) (k : A -> M B) s a s' :
  m s = (inr a, s') -> bind m k s = k a s'.
Proof. intros E. unfold bind. now rewrite E. Qed.

Lemma bind_inl {A B} (m : M A) (k : A -> M B) s e s' :
  m s = (inl e, s') -> bind m k s = (inl e, s').
Proof. intros E. unfold bind. now rewrite E. Qed.

Lemma state_eta s : {| heap := heap s; stdout := stdout s |} = s.
Proof. now destruct s. Qed.

Lemma deref_ok r s f : heap s !! r = Some f -> deref r s = (inr f, s).
Proof. intros E. unfold deref. now rewrite E. Qed.

Lemma getelt_ok r k s f e :
  heap s !! r = Some f -> elts f !! k = Some e -> getelt r k s = (inr e, s).
Proof.
  intros Hf He. unfold getelt.
  rewrite (bind_inr _ _ _ _ _ (deref_ok _ _ _ Hf)). now rewrite He.
Qed.

Lemma getelt_missing r k s f :
  heap s !! r = Some f -> elts f !! k = None ->
  getelt r k s = (inl LayerNotFound, s).
Proof.
  intros Hf He. unfold getelt.
  rewrite (bind_inr _ _ _ _ _ (deref_ok _ _ _ Hf)). now rewrite He.
Qed.

Lemma setelt_ok r k upd s f e :
  heap s !! r = Some f -> elts f !! k = Some e ->
  setelt r k upd s =
    (inr tt, {| heap := <[r := with_elts (<[k := upd e]> (elts f)) f]> (heap s);
                stdout := stdout s |}).
Proof.
  intros Hf He. unfold setelt.
  rewrite (bind_inr _ _ _ _ _ (deref_ok _ _ _ Hf)). now rewrite He.
Qed.

Lemma setelt_missing r k upd s f :
  heap s !! r = Some f -> elts f !! k = None ->
  setelt r k upd s = (inl LayerNotFound, s).
Proof.
  intros Hf He. unfold setelt.
  rewrite (bind_inr _ _ _ _ _ (deref_ok _ _ _ Hf)). now rewrite He.
Qed.

(** ** Which objects a statement writes to *)

Lemma same_except_refl r h : same_except r h h.
Proof. split; auto. Qed.

Lemma same_except_trans r h1 h2 h3 :
  same_except r h1 h2 -> same_except r h2 h3 -> same_except r h1 h3.
Proof.
  intros [L1 E1] [L2 E2]. split; [congruence|].
  intros i Hi. rewrite E2, E1; auto.
Qed.

Lemma same_except_insert r h f : same_except r h (<[r := f]> h).
Proof.
  split; [apply length_insert|].
  intros i Hi. apply list_lookup_insert_ne. congruence.
Qed.

Create HintDb writes.

Lemma writes_ret r {A} (a : A) : writes_only r (ret a).
Proof. intros s. apply same_except_refl. Qed.

Lemma writes_raise r {A} e : writes_only r (@raise A e).
Proof. intros s. apply same_except_refl. Qed.

Lemma writes_lift r {A} (x : exn + A) : writes_only r (lift x).
Proof. intros s. apply same_except_refl. Qed.

Lemma writes_bind r {A B} (m : M A) (k : A -> M B) :
  writes_only r m -> (forall a, writes_only r (k a)) -> writes_only r (bind m k).
Proof.
  intros Hm Hk s. unfold bind. specialize (Hm s).
  destruct (m s) as [[e|a] s1]; simpl in *; [exact Hm|].
  eapply same_except_trans; [exact Hm|apply Hk].
Qed.

Lemma writes_deref r r' : writes_only r (deref r').
Proof.
  intros s. unfold deref. destruct (heap s !! r'); apply same_except_refl.
Qed.

Lemma writes_store r f : writes_only r (store r f).
Proof. intros s. apply same_except_insert. Qed.

Lemma writes_emit r o : writes_only r (emit o).
Proof. intros s. apply same_except_refl. Qed.

#[local] Hint Resolve writes_ret writes_raise writes_lift writes_bind
  writes_deref writes_store writes_emit : writes.

Lemma writes_getelt r k : writes_only r (getelt r k).
Proof.
  unfold getelt. apply writes_bind; auto with writes.
  intros f. destruct (elts f !! k); auto with writes.
Qed.

Lemma writes_setelt r k upd : writes_only r (setelt r k upd).
Proof.
  unfold setelt. apply writes_bind; auto with writes.
  intros f. destruct (elts f !! k); auto with writes.
Qed.

#[local] Hint Resolve writes_getelt writes_setelt : writes.

Ltac writes :=
  repeat first
    [ progress auto with writes
    | apply writes_bind; [|intros ?] ].

Lemma writes_ssid_block r : writes_only r (ssid_block r).
Proof.
  unfold ssid_block, set_info, set_len, set_addr2, frame_info, frame_len,
    get_info, get_len, get_addr2, print. writes.
Qed.

Lemma writes_reorder_block r : writes_only r (reorder_block r).
Proof.
  unfold reorder_block, set_info, set_len, set_ID, get_info, get_len, get_ID.
  writes.
Qed.

Lemma writes_rates_block r : writes_only r (rates_block r).
Proof. unfold rates_block, set_info. writes. Qed.

Lemma writes_send_block up r : writes_only r (send_block up r).
Proof.
  unfold send_block, show. writes. destruct (up iface); writes.
Qed.

(** ** Running the blocks on an object of the store *)

Lemma state_normal s r f :
  heap s !! r = Some f ->
  s = {| heap := <[r := f]> (heap s); stdout := stdout s |}.
Proof. intros E. rewrite list_insert_id by exact E. now destruct s. Qed.

Ltac unfold_stmts :=
  unfold set_element_field, set_ID, set_len, set_info, set_addr2, get_ID, get_len, get_info,
    get_addr2, frame_info, frame_len, print, show, getelt, setelt, deref,
    store, emit, bind, ret, raise, lift.

Ltac run_at Hlt :=
  unfold_stmts;
  repeat (simpl; rewrite ?list_insert_insert_eq;
          rewrite ?list_lookup_insert_eq by exact Hlt).

Lemma reorder_block_run s r f e0 e1 rest :
  heap s !! r = Some f -> elts f = e0 :: e1 :: rest ->
  reorder_block r s =
    (inr (info e1),
     {| heap := <[r := with_elts (e1 :: mkElt SSID 4 "ABCD" :: rest) f]> (heap s);
        stdout := stdout s |}).
Proof.
  intros Hf He. pose proof (lookup_lt_Some _ _ _ Hf) as Hlt.
  rewrite (state_normal s r f Hf) at 1.
  destruct f as [h es]. simpl in He. subst es.
  unfold reorder_block. run_at Hlt.
  destruct e1; reflexivity.
Qed.

Lemma run_reaches rdpcap up h e0 e1 e2 e3 e4 rest fs :
  rdpcap "base_packet.pcapng" =
    inr ({| hdr := h; elts := e0 :: e1 :: e2 :: e3 :: e4 :: rest |} :: fs) ->
  up iface = true ->
  let f0 := {| hdr := h; elts := e0 :: e1 :: e2 :: e3 :: e4 :: rest |} in
  let f := {| hdr := with_addr2 "40:e3:d6:bf:dd:01" h;
              elts := e1 :: {| ID := SSID; len := 4; info := "ABCD" |} :: e2
                      :: e3 :: with_info HR_payload e4 :: rest |} in
  run rdpcap up =
    (inr {| sent := f; on_iface := iface; loop := 1; inter_ms := 100 |},
     {| heap := f :: fs;
        stdout := [ Dump f0;
                    Line ("SSID " +:+ str_mul "A" 32);
                    Line "AP MAC: 40:e3:d6:bf:dd:01";
                    Line "Len: 32";
                    Dump f ] |}).
Proof.
  intros Hr Hup f0 f. unfold run, script, load_block.
  unfold bind at 1. unfold bind at 1. unfold lift at 1. rewrite Hr.
  unfold send_block. rewrite Hup.
  destruct e1. reflexivity.
Qed.

Lemma run_inv rdpcap up c st :
  run rdpcap up = (inr c, st) ->
  exists h e0 e1 e2 e3 e4 rest fs,
    rdpcap "base_packet.pcapng" =
      inr ({| hdr := h; elts := e0 :: e1 :: e2 :: e3 :: e4 :: rest |} :: fs) /\
    up iface = true.
Proof.
  unfold run, script, load_block.
  unfold bind at 1. unfold bind at 1. unfold lift at 1.
  destruct (rdpcap "base_packet.pcapng") as [e|[|[h es] fs]]; try discriminate.
  destruct es as [|e0 [|e1 [|e2 [|e3 [|e4 rest]]]]]; try discriminate.
  unfold send_block. destruct (up iface) eqn:Hup; try discriminate.
  intros _. now exists h, e0, e1, e2, e3, e4, rest, fs.
Qed.

Lemma ex_run :
  run (fun _ => inr [ex_frame]) (fun _ => true) = (inr ex_call, ex_final).
Proof. vm_compute. reflexivity. Qed.

(** ** Selecting the first frame *)

(** C4: [select_first] (the script's [frames[0]]) returns the first frame of
    a sequence that has one, and fails with [EmptyCaptureError], giving no
    frame, on the empty sequence. *)
Theorem select_first_spec {A} (frames : list A) :
  (forall x, head frames = Some x -> select_first frames = inr x) /\
  (frames = [] -> select_first frames = inl EmptyCaptureError) /\
  (forall x, select_first frames = inr x -> head frames = Some x) /\
  (forall e, select_first frames = inl e -> e = EmptyCaptureError /\ frames = []).
Proof.
  destruct frames as [|y ys]; simpl; repeat split; congruence.
Qed.

Lemma select_first_spec_witness :
  select_first [ex_frame; ex_frame2] = inr ex_frame /\
  select_first (@nil Frame) = inl EmptyCaptureError.
Proof.
  split.
  - apply (select_first_spec [ex_frame; ex_frame2]). reflexivity.
  - apply (select_first_spec (@nil Frame)). reflexivity.
Defined.

(** ** Assigning one field of one element *)

(** C8: an assignment to the tag, the length or the payload of element [k]
    of a frame succeeds whatever the value, with no check of the length
    against the payload; it changes that field of that element and nothing
    else: not the element's other two fields, not another element, not the
    header, not another frame, not the console. *)
Theorem set_element_field_frame (s : State) (r : ref) (f : Frame) (k : nat)
    (e : Dot11Elt) (a : assignment) :
  heap s !! r = Some f -> elts f !! k = Some e ->
  exists e' f' s',
    set_element_field r k a s = (inr tt, s') /\
    match a with
    | To_ID v => e' = {| ID := v; len := len e; info := info e |}
    | To_len v => e' = {| ID := ID e; len := v; info := info e |}
    | To_info v => e' = {| ID := ID e; len := len e; info := v |}
    end /\
    heap s' !! r = Some f' /\
    hdr f' = hdr f /\
    length (elts f') = length (elts f) /\
    elts f' !! k = Some e' /\
    (forall j, j <> k -> elts f' !! j = elts f !! j) /\
    same_except r (heap s) (heap s') /\
    stdout s' = stdout s.
Proof.
  intros Hf He.
  pose (upd := match a with
               | To_ID v => with_ID v
               | To_len v => with_len v
               | To_info v => with_info v
               end).
  exists (upd e), (with_elts (<[k := upd e]> (elts f)) f),
    {| heap := <[r := with_elts (<[k := upd e]> (elts f)) f]> (heap s);
       stdout := stdout s |}.
  split.
  { destruct a; simpl; unfold set_ID, set_len, set_info;
      apply (setelt_ok _ _ _ _ _ _ Hf He). }
  simpl. repeat split.
  - destruct a; reflexivity.
  - apply list_lookup_insert_eq. eapply lookup_lt_Some, Hf.
  - apply length_insert.
  - apply list_lookup_insert_eq. eapply lookup_lt_Some, He.
  - intros j Hj. apply list_lookup_insert_ne. congruence.
  - apply length_insert.
  - intros i Hi. apply list_lookup_insert_ne. congruence.
Qed.

(** The payload assigned here has six bytes, the length field says three. *)
Lemma set_element_field_frame_witness :
  exists e' f' s',
    set_element_field 0%nat 4 (To_info HR_payload)
      {| heap := [ex_frame]; stdout := [] |} = (inr tt, s') /\
    e' = {| ID := 50; len := 3; info := HR_payload |} /\
    heap s' !! 0%nat = Some f' /\
    hdr f' = hdr ex_frame /\
    length (elts f') = length (elts ex_frame) /\
    elts f' !! 4%nat = Some e' /\
    (forall j, j <> 4%nat -> elts f' !! j = elts ex_frame !! j) /\
    same_except 0%nat [ex_frame] (heap s') /\
    stdout s' = [].
Proof.
  apply (set_element_field_frame {| heap := [ex_frame]; stdout := [] |} 0%nat
           ex_frame 4%nat {| ID := 50; len := 3; info := "xyz" |}
           (To_info HR_payload)); reflexivity.
Defined.

(** ** The reordering block *)

(** C1, as the code has it: the block copies element 1's tag, payload and
    length into element 0 and then writes the tag [SSID], the payload
    ["ABCD"] and the length 4 into element 1; the elements from index 2 on,
    the header, the other frames and the console are as before. *)
Theorem reorder_block_copies (s : State) (r : ref) (f : Frame)
    (e0 e1 : Dot11Elt) :
  heap s !! r = Some f ->
  elts f !! 0%nat = Some e0 -> elts f !! 1%nat = Some e1 ->
  exists f' s',
    reorder_block r s = (inr (info e1), s') /\
    heap s' !! r = Some f' /\
    elts f' !! 0%nat = Some e1 /\
    elts f' !! 1%nat = Some {| ID := SSID; len := 4; info := "ABCD" |} /\
    (forall k, (2 <= k)%nat -> elts f' !! k = elts f !! k) /\
    length (elts f') = length (elts f) /\
    hdr f' = hdr f /\
    same_except r (heap s) (heap s') /\
    stdout s' = stdout s.
Proof.
  intros Hf H0 H1.
  destruct (elts f) as [|x0 [|x1 rest]] eqn:Hes; try discriminate.
  injection H0 as ->. injection H1 as ->.
  exists (with_elts (e1 :: {| ID := SSID; len := 4; info := "ABCD" |} :: rest) f).
  eexists. split; [apply (reorder_block_run _ _ _ _ _ _ Hf Hes)|].
  simpl. repeat split.
  - apply list_lookup_insert_eq. eapply lookup_lt_Some, Hf.
  - intros [|[|k]] Hk; try lia. reflexivity.
  - apply length_insert.
  - intros i Hi. apply list_lookup_insert_ne. congruence.
Qed.

Lemma reorder_block_copies_witness :
  exists f' s',
    reorder_block 0%nat {| heap := [ex_frame]; stdout := [] |} = (inr "ab", s') /\
    heap s' !! 0%nat = Some f' /\
    elts f' !! 0%nat = Some {| ID := 1; len := 2; info := "ab" |} /\
    elts f' !! 1%nat = Some {| ID := SSID; len := 4; info := "ABCD" |} /\
    (forall k, (2 <= k)%nat -> elts f' !! k = elts ex_frame !! k) /\
    length (elts f') = length (elts ex_frame) /\
    hdr f' = hdr ex_frame /\
    same_except 0%nat [ex_frame] (heap s') /\
    stdout s' = [].
Proof.
  apply (reorder_block_copies {| heap := [ex_frame]; stdout := [] |} 0%nat
           ex_frame {| ID := 0; len := 4; info := "home" |}
           {| ID := 1; len := 2; info := "ab" |}); reflexivity.
Defined.

(** C1 as stated fails: after the block, element 1 of [ex_frame] is
    (SSID, "ABCD", 4), not the (0, "home", 4) that element 0 held. *)
Lemma reorder_block_not_exchange :
  exists f' s',
    reorder_block 0%nat {| heap := [ex_frame]; stdout := [] |} = (inr "ab", s') /\
    heap s' !! 0%nat = Some f' /\
    ~ exchanged (elts ex_frame) (elts f') 0 1.
Proof.
  eexists _, _. split; [reflexivity|]. split; [reflexivity|].
  intros (_ & H & _). discriminate H.
Qed.

(** ** The loaded sequence and the frame taken from it *)

Lemma writes_edits up r :
  writes_only r
    (ssid_block r;; reorder_block r;; rates_block r;; send_block up r)%py.
Proof.
  pose proof writes_ssid_block. pose proof writes_reorder_block.
  pose proof writes_rates_block. pose proof (writes_send_block up).
  writes.
Qed.

Lemma run_writes_first rdpcap up fs :
  rdpcap "base_packet.pcapng" = inr fs ->
  same_except 0%nat fs (heap (snd (run rdpcap up))).
Proof.
  intros Hr. unfold run, script, load_block.
  unfold bind at 1. unfold bind at 1. unfold lift at 1. rewrite Hr.
  destruct fs as [|f0 fs]; [apply same_except_refl|].
  exact (writes_edits up 0%nat {| heap := f0 :: fs; stdout := [Dump f0] |}).
Qed.

(** C3, as the code has it: [frame] is the object [frames[0]], so the
    assignments change the first frame of the loaded sequence; the sequence
    keeps its length and every other frame of it is never written to,
    however far the script gets.  When the script reaches [sendp], the first
    frame of the sequence is the edited frame that is sent. *)
Theorem capture_first_frame_edited
    (rdpcap : str -> exn + list Frame) (up : str -> bool) (fs : list Frame) :
  rdpcap "base_packet.pcapng" = inr fs ->
  length (heap (snd (run rdpcap up))) = length fs /\
  (forall i, i <> 0%nat -> heap (snd (run rdpcap up)) !! i = fs !! i) /\
  (forall c, fst (run rdpcap up) = inr c ->
     heap (snd (run rdpcap up)) !! 0%nat = Some (sent c)).
Proof.
  intros Hr. destruct (run_writes_first rdpcap up fs Hr) as [HL HE].
  split; [exact HL|]. split; [exact HE|].
  intros c Hc. destruct (run rdpcap up) as [res st] eqn:Hrun.
  simpl in Hc. subst res.
  destruct (run_inv _ _ _ _ Hrun)
    as (h & e0 & e1 & e2 & e3 & e4 & rest & fs' & Hr' & Hup).
  pose proof (run_reaches _ _ _ _ _ _ _ _ _ _ Hr' Hup) as Hrun'.
  simpl in Hrun'. rewrite Hrun in Hrun'. now injection Hrun' as -> ->.
Qed.

Lemma capture_first_frame_edited_witness :
  length (heap (snd (run (fun _ => inr [ex_frame; ex_frame2]) (fun _ => true))))
    = 2%nat /\
  heap (snd (run (fun _ => inr [ex_frame; ex_frame2]) (fun _ => true))) !! 1%nat
    = Some ex_frame2.
Proof.
  destruct (capture_first_frame_edited
              (fun _ => inr [ex_frame; ex_frame2]) (fun _ => true)
              [ex_frame; ex_frame2] eq_refl) as (HL & HE & _).
  split; [exact HL|]. apply (HE 1%nat). discriminate.
Defined.

(** C3 as stated fails: the loaded sequence is [[ex_frame]], and after the
    script its one frame is no longer [ex_frame]. *)
Lemma capture_not_immutable :
  heap (snd (run (fun _ => inr [ex_frame]) (fun _ => true))) <> [ex_frame].
Proof. vm_compute. discriminate. Qed.

(** ** What is printed and what is sent *)

Lemma find_elt_skip tag e es :
  ID e <> tag -> find_elt tag (e :: es) = find_elt tag es.
Proof. intros Hne. simpl. now destruct (Z.eqb_spec (ID e) tag). Qed.

(** C9: whenever the script reaches [sendp], the one line it printed with
    the prefix "SSID " shows 32 letters A, while the frame it sends has at
    index 1 the element tagged SSID with the payload "ABCD", which is not the
    printed value; and when the captured element 1 was not itself tagged
    SSID, the SSID a station reads out of the sent frame is "ABCD". *)
Theorem printed_ssid_not_sent
    (rdpcap : str -> exn + list Frame) (up : str -> bool)
    (c : sendp_call) (st : State) :
  run rdpcap up = (inr c, st) ->
  Line ("SSID " +:+ str_mul "A" 32) ∈ stdout st /\
  (forall v, Line ("SSID " +:+ v) ∈ stdout st -> v = str_mul "A" 32) /\
  elts (sent c) !! 1%nat = Some {| ID := SSID; len := 4; info := "ABCD" |} /\
  str_mul "A" 32 <> "ABCD" /\
  (forall fs f0 e1,
     rdpcap "base_packet.pcapng" = inr fs -> fs !! 0%nat = Some f0 ->
     elts f0 !! 1%nat = Some e1 -> ID e1 <> SSID ->
     ssid_of (sent c) = Some "ABCD" /\
     ssid_of (sent c) <> Some (str_mul "A" 32)).
Proof.
  intros Hrun.
  destruct (run_inv _ _ _ _ Hrun)
    as (h & e0 & e1 & e2 & e3 & e4 & rest & fs' & Hr & Hup).
  pose proof (run_reaches _ _ _ _ _ _ _ _ _ _ Hr Hup) as Hrun'.
  simpl in Hrun'. rewrite Hrun in Hrun'. injection Hrun' as -> ->.
  simpl. repeat split.
  - apply list_elem_of_In. simpl. auto.
  - intros v Hv. apply list_elem_of_In in Hv. simpl in Hv.
    destruct Hv as [Hv|[Hv|[Hv|[Hv|[Hv|[]]]]]]; try discriminate.
    injection Hv as Hv. exact (eq_sym Hv).
  - discriminate.
  - rewrite Hr in H. injection H as <-. simpl in H0. injection H0 as <-.
    simpl in H1. injection H1 as <-.
    unfold ssid_of. simpl elts. rewrite find_elt_skip by assumption.
    reflexivity.
  - rewrite Hr in H. injection H as <-. simpl in H0. injection H0 as <-.
    simpl in H1. injection H1 as <-.
    unfold ssid_of. simpl elts. rewrite find_elt_skip by assumption.
    discriminate.
Qed.

Lemma printed_ssid_not_sent_witness :
  Line "SSID AAAAAAAAAAAAAAAAAAAAAAAAAAAAAAAA" ∈ stdout ex_final /\
  elts ex_sent !! 1%nat = Some {| ID := SSID; len := 4; info := "ABCD" |} /\
  ssid_of ex_sent = Some "ABCD".
Proof.
  destruct (printed_ssid_not_sent (fun _ => inr [ex_frame]) (fun _ => true)
              ex_call ex_final ex_run) as (Hp & _ & He & _ & Hs).
  split; [exact Hp|]. split; [exact He|].
  apply (Hs [ex_frame] ex_frame {| ID := 1; len := 2; info := "ab" |});
    try reflexivity. discriminate.
Defined.

(** C10: whenever the script reaches [sendp], element 4 of the sent frame
    has the six-byte payload of line 46 under the tag and the length field
    of the captured element 4; unless the capture had the length 6 there,
    the length field of the sent element differs from the size of its
    payload. *)
Theorem rates_payload_keeps_length
    (rdpcap : str -> exn + list Frame) (up : str -> bool)
    (c : sendp_call) (st : State) (fs : list Frame) (f0 : Frame)
    (e4 : Dot11Elt) :
  run rdpcap up = (inr c, st) ->
  rdpcap "base_packet.pcapng" = inr fs -> fs !! 0%nat = Some f0 ->
  elts f0 !! 4%nat = Some e4 ->
  elts (sent c) !! 4%nat =
    Some {| ID := ID e4; len := len e4; info := HR_payload |} /\
  String.length HR_payload = 6%nat /\
  (len e4 <> 6 ->
   forall e, elts (sent c) !! 4%nat = Some e -> ~ consistent e).
Proof.
  intros Hrun Hfs Hf0 He4.
  destruct (run_inv _ _ _ _ Hrun)
    as (h & x0 & x1 & x2 & x3 & x4 & rest & fs' & Hr & Hup).
  pose proof (run_reaches _ _ _ _ _ _ _ _ _ _ Hr Hup) as Hrun'.
  simpl in Hrun'. rewrite Hrun in Hrun'. injection Hrun' as -> ->.
  rewrite Hr in Hfs. injection Hfs as <-. simpl in Hf0. injection Hf0 as <-.
  simpl in He4. injection He4 as <-.
  simpl. repeat split.
  intros Hne e [= <-]. unfold consistent. simpl. exact Hne.
Qed.

Lemma rates_payload_keeps_length_witness :
  elts ex_sent !! 4%nat = Some {| ID := 50; len := 3; info := HR_payload |} /\
  ~ consistent {| ID := 50; len := 3; info := HR_payload |}.
Proof.
  destruct (rates_payload_keeps_length (fun _ => inr [ex_frame])
              (fun _ => true) ex_call ex_final [ex_frame] ex_frame
              {| ID := 50; len := 3; info := "xyz" |}
              ex_run eq_refl eq_refl eq_refl) as (He & _ & Hn).
  split; [exact He|]. apply Hn; [discriminate|exact He].
Defined.

(** ** Bytes and records *)

Lemma byte_of_Z_of_byte b : byte_of_Z (Z_of_byte b) = Some b.
Proof.
  unfold byte_of_Z, Z_of_byte.
  pose proof (Byte.to_N_bounded b).
  rewrite decide_True by lia.
  rewrite N2Z.id. apply Byte.of_to_N.
Qed.

Lemma Z_of_byte_of_Z z b : byte_of_Z z = Some b -> Z_of_byte b = z.
Proof.
  unfold byte_of_Z, Z_of_byte. case_decide; [|discriminate].
  intros E. apply Byte.to_of_N in E. rewrite E. lia.
Qed.

Lemma byte_of_Z_in_range z : 0 <= z < 256 -> exists b, byte_of_Z z = Some b.
Proof.
  intros Hz. unfold byte_of_Z. rewrite decide_True by exact Hz.
  destruct (Byte.of_N (Z.to_N z)) as [b|] eqn:E; [eauto|].
  apply Byte.of_N_None_iff in E. lia.
Qed.

Lemma to_nat_of_Z z b : byte_of_Z z = Some b -> Byte.to_nat b = Z.to_nat z.
Proof.
  intros E. apply Z_of_byte_of_Z in E. subst z. unfold Z_of_byte.
  rewrite Byte.to_nat_via_N. lia.
Qed.

Lemma length_list_byte_of_string s :
  length (list_byte_of_string s) = String.length s.
Proof.
  unfold list_byte_of_string. rewrite length_map.
  induction s as [|a s IH]; simpl; congruence.
Qed.

Lemma build_elt_in_range e :
  byte_fields e ->
  exists t l, byte_of_Z (ID e) = Some t /\ byte_of_Z (len e) = Some l /\
    build_elt e = Some (t :: l :: list_byte_of_string (info e)).
Proof.
  intros [Hi Hl].
  destruct (byte_of_Z_in_range _ Hi) as [t Ht].
  destruct (byte_of_Z_in_range _ Hl) as [l Hl'].
  exists t, l. unfold build_elt. rewrite Ht, Hl'. auto.
Qed.

Lemma build_elts_in_range es :
  Forall byte_fields es -> exists w, build_elts es = Some w.
Proof.
  induction 1 as [|e es He _ [w IH]]; simpl; [eauto|].
  destruct (build_elt_in_range e He) as (t & l & _ & _ & ->).
  rewrite IH. simpl. eauto.
Qed.

Lemma build_elts_app es1 es2 w1 w2 :
  build_elts es1 = Some w1 -> build_elts es2 = Some w2 ->
  build_elts (es1 ++ es2) = Some (w1 ++ w2).
Proof.
  revert w1. induction es1 as [|e es1 IH]; simpl; intros w1 H1 H2.
  - injection H1 as <-. exact H2.
  - destruct (build_elt e) as [w|]; [|discriminate]. simpl in *.
    destruct (build_elts es1) as [ws|]; [|discriminate]. simpl in *.
    injection H1 as <-. rewrite (IH ws eq_refl H2). simpl.
    now rewrite <- app_assoc.
Qed.

(** One record written and read back, whatever follows it. *)
Lemma dissect_build_elt e w rest :
  build_elt e = Some w -> consistent e ->
  dissect_elt (w ++ rest) = Some (e, rest).
Proof.
  unfold build_elt, consistent. intros Hb Hc.
  destruct (byte_of_Z (ID e)) as [t|] eqn:Ht; [|discriminate].
  destruct (byte_of_Z (len e)) as [l|] eqn:Hl; [|discriminate].
  simpl in Hb. injection Hb as <-. simpl.
  assert (Hn : Byte.to_nat l = length (list_byte_of_string (info e))).
  { rewrite (to_nat_of_Z _ _ Hl), Hc, length_list_byte_of_string. lia. }
  rewrite decide_True by (rewrite length_app; lia).
  rewrite take_app_length' by exact Hn.
  rewrite drop_app_length' by exact Hn.
  rewrite string_of_list_byte_of_string.
  rewrite (Z_of_byte_of_Z _ _ Ht), (Z_of_byte_of_Z _ _ Hl).
  now destruct e.
Qed.

(** The record at position [length pre], after a well-formed prefix. *)
Lemma dissect_at_build pre : forall wpre e we rest,
  build_elts pre = Some wpre -> Forall consistent pre ->
  build_elt e = Some we -> consistent e ->
  dissect_at (length pre) (wpre ++ we ++ rest) = Some e.
Proof.
  induction pre as [|x pre IH]; simpl; intros wpre e we rest Hp Hc He Hce.
  - injection Hp as <-. simpl. now rewrite (dissect_build_elt _ _ _ He Hce).
  - destruct (build_elt x) as [wx|] eqn:Hx; [|discriminate]. simpl in Hp.
    destruct (build_elts pre) as [ws|] eqn:Hws; [|discriminate]. simpl in Hp.
    injection Hp as <-. inversion Hc as [|? ? Hcx Hcp]; subst.
    rewrite <- app_assoc.
    rewrite (dissect_build_elt _ _ _ Hx Hcx).
    now apply IH.
Qed.

Lemma dissect_elt_shorter w e rest :
  dissect_elt w = Some (e, rest) -> (length rest + 2 <= length w)%nat.
Proof.
  destruct w as [|t [|l w]]; simpl; try discriminate.
  case_decide; [|discriminate]. intros [= <- <-].
  rewrite length_drop. lia.
Qed.

(** Fuel beyond the number of bytes changes nothing. *)
Lemma dissect_elts_fuel_irrel fuel : forall fuel' w,
  (length w <= fuel)%nat -> (length w <= fuel')%nat ->
  dissect_elts_fuel fuel w = dissect_elts_fuel fuel' w.
Proof.
  induction fuel as [|fuel IH]; intros fuel' w Hw Hw'.
  - destruct w; [|simpl in Hw; lia]. now destruct fuel'.
  - destruct w as [|b w]; [now destruct fuel'|].
    destruct fuel' as [|fuel']; [simpl in Hw'; lia|].
    cbn [dissect_elts_fuel].
    destruct (dissect_elt (b :: w)) as [[e rest]|] eqn:E; [|reflexivity].
    apply dissect_elt_shorter in E. simpl in *.
    rewrite (IH fuel' rest) by lia. reflexivity.
Qed.

Lemma dissect_elts_cons w e rest :
  dissect_elt w = Some (e, rest) ->
  dissect_elts w = es ← dissect_elts rest; Some (e :: es).
Proof.
  intros E. unfold dissect_elts.
  pose proof (dissect_elt_shorter _ _ _ E) as Hlen.
  destruct w as [|b w]; [discriminate|].
  cbn [length dissect_elts_fuel]. rewrite E. simpl.
  rewrite (dissect_elts_fuel_irrel (length w) (length rest) rest);
    [reflexivity| simpl in Hlen; lia | lia].
Qed.

(** A frame's elements written and read back. *)
Lemma dissect_build_elts es : forall w,
  build_elts es = Some w -> Forall consistent es -> dissect_elts w = Some es.
Proof.
  induction es as [|e es IH]; simpl; intros w Hb Hc.
  - now injection Hb as <-.
  - destruct (build_elt e) as [we|] eqn:He; [|discriminate]. simpl in Hb.
    destruct (build_elts es) as [ws|] eqn:Hws; [|discriminate]. simpl in Hb.
    injection Hb as <-. inversion Hc as [|? ? Hce Hcs]; subst.
    rewrite (dissect_elts_cons _ _ _ (dissect_build_elt _ _ ws He Hce)).
    now rewrite (IH ws eq_refl Hcs).
Qed.

(** The count found by hopping over the records is the number of records
    the parser returns. *)
Lemma tlv_count_fuel_dissect fuel : forall w n,
  tlv_count_fuel fuel w = Some n ->
  exists es, dissect_elts_fuel fuel w = Some es /\ length es = n.
Proof.
  induction fuel as [|fuel IH]; intros w n.
  - destruct w as [|t [|l w]]; simpl; try discriminate.
    intros [= <-]. now exists [].
  - destruct w as [|t [|l w]]; try discriminate.
    + intros [= <-]. now exists [].
    + cbn [tlv_count_fuel dissect_elts_fuel dissect_elt].
      case_decide; [|discriminate].
      destruct (tlv_count_fuel fuel (drop (Byte.to_nat l) w)) as [m|] eqn:Hm;
        [|discriminate].
      simpl. intros [= <-].
      destruct (IH _ _ Hm) as (es & -> & Hes). simpl.
      eexists. split; [reflexivity|]. simpl. now rewrite Hes.
Qed.

Lemma dissect_elts_at w : forall es k,
  dissect_elts w = Some es -> (k < length es)%nat ->
  dissect_at k w = es !! k.
Proof.
  remember (length w) as n eqn:Hn. revert w Hn.
  induction n as [n IH] using lt_wf_ind. intros w Hn es k Hd Hk.
  destruct (dissect_elt w) as [[e rest]|] eqn:E.
  - rewrite (dissect_elts_cons _ _ _ E) in Hd.
    destruct (dissect_elts rest) as [es'|] eqn:Hes'; [|discriminate].
    simpl in Hd. injection Hd as <-.
    destruct k as [|k]; simpl; rewrite E; [reflexivity|].
    pose proof (dissect_elt_shorter _ _ _ E).
    apply (IH (length rest)); [lia|reflexivity|exact Hes'|simpl in Hk; lia].
  - destruct w as [|b w].
    + injection Hd as <-. simpl in Hk. lia.
    + unfold dissect_elts in Hd. cbn [length dissect_elts_fuel] in Hd.
      rewrite E in Hd. discriminate.
Qed.

(** ** The assigned name on the wire *)

(** C2: after a 32-byte value is assigned to the payload of element [k] and
    32 to its length field, the frame serialises; in its bytes, behind the
    header and the elements before [k], come the element's tag, the length
    byte 32 and the 32 bytes of the value; and reading the [k]-th record
    back out of those bytes gives the same tag, the length 32 and the value.
    The tags and lengths of the frame fit a byte, and the elements in front
    of [k] are consistent (none, for the script's element 0). *)
Theorem assigned_ssid_on_wire (build_hdr : Dot11 -> list byte)
    (s : State) (r : ref) (f : Frame) (k : nat) (e : Dot11Elt) (v : str) :
  heap s !! r = Some f -> elts f !! k = Some e ->
  String.length v = 32%nat ->
  Forall byte_fields (elts f) ->
  Forall consistent (take k (elts f)) ->
  exists s' f' t wpre wpost w,
    (set_info r k v;; set_len r k 32)%py s = (inr tt, s') /\
    heap s' !! r = Some f' /\
    elts f' !! k = Some {| ID := ID e; len := 32; info := v |} /\
    build build_hdr f' = Some w /\
    build_elts (take k (elts f')) = Some wpre /\
    Z_of_byte t = ID e /\
    Z_of_byte x20 = 32 /\
    length (list_byte_of_string v) = 32%nat /\
    w = build_hdr (hdr f') ++ wpre
          ++ (t :: x20 :: list_byte_of_string v) ++ wpost /\
    dissect_at k (drop (length (build_hdr (hdr f'))) w) =
      Some {| ID := ID e; len := 32; info := v |}.
Proof.
  intros Hf He Hv Hb Hc.
  pose proof (lookup_lt_Some _ _ _ Hf) as Hr.
  pose proof (lookup_lt_Some _ _ _ He) as Hk.
  set (e' := {| ID := ID e; len := 32; info := v |}).
  set (f1 := with_elts (<[k := with_info v e]> (elts f)) f).
  set (s1 := {| heap := <[r := f1]> (heap s); stdout := stdout s |}).
  set (f2 := with_elts (<[k := e']> (elts f)) f).
  set (s2 := {| heap := <[r := f2]> (heap s); stdout := stdout s |}).
  assert (H1 : set_info r k v s = (inr tt, s1)) by exact (setelt_ok _ _ _ _ _ _ Hf He).
  assert (H2 : set_len r k 32 s1 = (inr tt, s2)).
  { unfold set_len.
    rewrite (setelt_ok r k (with_len 32) s1 f1 (with_info v e)).
    - unfold s2, s1, f2, f1, e'. simpl.
      now rewrite !list_insert_insert_eq.
    - apply list_lookup_insert_eq, Hr.
    - apply list_lookup_insert_eq, Hk. }
  (* the elements of the edited frame *)
  assert (Hes : elts f2 = take k (elts f) ++ e' :: drop (S k) (elts f)).
  { unfold f2. simpl. now apply insert_take_drop. }
  assert (Hlen : length (take k (elts f)) = k) by (apply length_take_le; lia).
  assert (Hpre : take k (elts f2) = take k (elts f)).
  { rewrite Hes. now apply take_app_length'. }
  (* their bytes *)
  destruct (build_elts_in_range (take k (elts f))) as [wpre Hwpre];
    [apply Forall_take, Hb|].
  destruct (build_elts_in_range (drop (S k) (elts f))) as [wpost Hwpost];
    [apply Forall_drop, Hb|].
  assert (Hid : byte_fields e) by (eapply Forall_lookup_1; eassumption).
  destruct Hid as [Hid _].
  destruct (byte_of_Z_in_range _ Hid) as [t Ht].
  assert (Hwe : build_elt e' = Some (t :: x20 :: list_byte_of_string v)).
  { unfold build_elt, e'. simpl. now rewrite Ht. }
  assert (Hce : consistent e') by (unfold consistent, e'; simpl; lia).
  assert (Hall : build_elts (elts f2) =
                 Some (wpre ++ (t :: x20 :: list_byte_of_string v) ++ wpost)).
  { rewrite Hes. apply build_elts_app; [exact Hwpre|].
    cbn [build_elts]. rewrite Hwe, Hwpost. reflexivity. }
  exists s2, f2, t, wpre, wpost,
    (build_hdr (hdr f2) ++ wpre
       ++ (t :: x20 :: list_byte_of_string v) ++ wpost).
  split; [now rewrite (bind_inr _ _ _ _ _ H1)|].
  split; [apply list_lookup_insert_eq, Hr|].
  split; [apply list_lookup_insert_eq, Hk|].
  split; [unfold build; now rewrite Hall|].
  split; [now rewrite Hpre|].
  split; [exact (Z_of_byte_of_Z _ _ Ht)|].
  split; [reflexivity|].
  split; [now rewrite length_list_byte_of_string|].
  split; [reflexivity|].
  rewrite drop_app_length. rewrite <- Hlen at 1.
  exact (dissect_at_build _ _ _ _ wpost Hwpre Hc Hwe Hce).
Qed.

(** The script's own assignment, to element 0 of [ex_frame]. *)
Lemma assigned_ssid_on_wire_witness :
  exists s' f' t wpre wpost w,
    (set_info 0%nat 0 (str_mul "A" 32);; set_len 0%nat 0 32)%py
      {| heap := [ex_frame]; stdout := [] |} = (inr tt, s') /\
    heap s' !! 0%nat = Some f' /\
    elts f' !! 0%nat = Some {| ID := 0; len := 32; info := str_mul "A" 32 |} /\
    build ex_build_hdr f' = Some w /\
    build_elts (take 0 (elts f')) = Some wpre /\
    Z_of_byte t = 0 /\
    Z_of_byte x20 = 32 /\
    length (list_byte_of_string (str_mul "A" 32)) = 32%nat /\
    w = ex_build_hdr (hdr f') ++ wpre
          ++ (t :: x20 :: list_byte_of_string (str_mul "A" 32)) ++ wpost /\
    dissect_at 0 (drop (length (ex_build_hdr (hdr f'))) w) =
      Some {| ID := 0; len := 32; info := str_mul "A" 32 |}.
Proof.
  apply (assigned_ssid_on_wire ex_build_hdr
           {| heap := [ex_frame]; stdout := [] |} 0%nat ex_frame 0%nat
           {| ID := 0; len := 4; info := "home" |} (str_mul "A" 32)).
  - reflexivity.
  - reflexivity.
  - reflexivity.
  - repeat (constructor; [split; simpl; lia|]). constructor.
  - constructor.
Defined.

(** ** Loading the capture *)

Lemma run_rdpcap_raises rdpcap up e :
  rdpcap "base_packet.pcapng" = inl e -> run rdpcap up = (inl e, init).
Proof.
  intros Hr. unfold run, script, load_block.
  unfold bind at 1. unfold bind at 1. unfold lift at 1. now rewrite Hr.
Qed.

Lemma run_rdpcap_empty rdpcap up :
  rdpcap "base_packet.pcapng" = inr [] ->
  run rdpcap up = (inl EmptyCaptureError, init).
Proof.
  intros Hr. unfold run, script, load_block.
  unfold bind at 1. unfold bind at 1. unfold lift at 1. now rewrite Hr.
Qed.

(** C5: when the file at the script's path is missing, unreadable or not a
    capture, or is a capture with a frame that does not parse, [load] fails
    with [CaptureReadError]; on an empty capture it gives no frame and
    [frames[0]] fails with [EmptyCaptureError].  In each case the script
    stops with that error, having printed and stored nothing, and reaches no
    [sendp]. *)
Theorem unusable_capture_stops (hdr_len : nat)
    (dissect_hdr : list byte -> option Dot11)
    (disk : str -> file) (up : str -> bool) :
  unusable hdr_len dissect_hdr (disk "base_packet.pcapng") ->
  exists e,
    run (fun p => load hdr_len dissect_hdr (disk p)) up = (inl e, init) /\
    (disk "base_packet.pcapng" = Capture [] ->
       load hdr_len dissect_hdr (disk "base_packet.pcapng") = inr [] /\
       e = EmptyCaptureError) /\
    (disk "base_packet.pcapng" <> Capture [] ->
       load hdr_len dissect_hdr (disk "base_packet.pcapng")
         = inl CaptureReadError /\
       e = CaptureReadError).
Proof.
  intros Hu.
  destruct (disk "base_packet.pcapng") as [| | |raws] eqn:Hd.
  1-3: exists CaptureReadError; split;
    [apply run_rdpcap_raises; now rewrite Hd
    |split; [discriminate|intros _; split; reflexivity]].
  destruct raws as [|raw raws].
  - exists EmptyCaptureError. split.
    + apply run_rdpcap_empty. now rewrite Hd.
    + split; [intros _; split; reflexivity|congruence].
  - destruct Hu as [Hu|(bad & Hin & Hbad)]; [discriminate|].
    assert (Hl : load hdr_len dissect_hdr (Capture (raw :: raws))
                 = inl CaptureReadError).
    { unfold load. rewrite (mapM_None_2 (dissect hdr_len dissect_hdr));
        [reflexivity|]. apply Exists_exists. eauto. }
    exists CaptureReadError. split.
    + apply run_rdpcap_raises. now rewrite Hd.
    + split; [discriminate|intros _; split; [exact Hl|reflexivity]].
Qed.

Lemma unusable_capture_stops_witness :
  exists e,
    run (fun p => load 2 ex_dissect_hdr (Capture [[x80; x00; x00; x05]])) (fun _ => true)
      = (inl e, init) /\
    (Capture [[x80; x00; x00; x05]] = Capture [] ->
       load 2 ex_dissect_hdr (Capture [[x80; x00; x00; x05]]) = inr [] /\
       e = EmptyCaptureError) /\
    (Capture [[x80; x00; x00; x05]] <> Capture [] ->
       load 2 ex_dissect_hdr (Capture [[x80; x00; x00; x05]])
         = inl CaptureReadError /\
       e = CaptureReadError).
Proof.
  apply (unusable_capture_stops 2 ex_dissect_hdr
           (fun _ => Capture [[x80; x00; x00; x05]]) (fun _ => true)).
  right. exists [x80; x00; x00; x05]. split; [|reflexivity].
  apply list_elem_of_In. simpl. auto.
Defined.

(** C6: a capture of one raw frame whose header reads and whose remaining
    bytes are [n] whole records loads as a sequence of exactly one frame,
    and that frame has [n] information elements, the [i]-th being the
    [i]-th record of the bytes. *)
Theorem load_single_frame (hdr_len : nat)
    (dissect_hdr : list byte -> option Dot11)
    (raw : list byte) (h : Dot11) (n : nat) :
  dissect_hdr (take hdr_len raw) = Some h ->
  tlv_count (drop hdr_len raw) = Some n ->
  exists f,
    load hdr_len dissect_hdr (Capture [raw]) = inr [f] /\
    hdr f = h /\
    length (elts f) = n /\
    forall i, (i < n)%nat -> elts f !! i = dissect_at i (drop hdr_len raw).
Proof.
  intros Hh Hn.
  destruct (tlv_count_fuel_dissect _ _ _ Hn) as (es & Hes & Hlen).
  fold (dissect_elts (drop hdr_len raw)) in Hes.
  exists {| hdr := h; elts := es |}.
  split.
  { unfold load. simpl. unfold dissect. rewrite Hh. simpl. rewrite Hes.
    reflexivity. }
  split; [reflexivity|]. split; [exact Hlen|].
  intros i Hi. simpl. symmetry. apply dissect_elts_at; [exact Hes|lia].
Qed.

Lemma load_single_frame_witness :
  exists f,
    load 2 ex_dissect_hdr (Capture [ex_raw]) = inr [f] /\
    hdr f = ex_hdr /\
    length (elts f) = 2%nat /\
    forall i, (i < 2)%nat -> elts f !! i = dissect_at i (drop 2 ex_raw).
Proof.
  apply (load_single_frame 2 ex_dissect_hdr ex_raw ex_hdr 2); reflexivity.
Defined.

(** ** How far the script gets *)

(** X1: the script reaches [sendp] exactly when the capture has a first
    frame with at least five information elements and the interface can be
    opened. *)
Theorem reaches_sendp_iff (rdpcap : str -> exn + list Frame)
    (up : str -> bool) :
  (exists c, fst (run rdpcap up) = inr c) <->
  (exists f0 fs,
     rdpcap "base_packet.pcapng" = inr (f0 :: fs) /\
     (5 <= length (elts f0))%nat /\ up iface = true).
Proof.
  split.
  - intros [c Hc]. destruct (run rdpcap up) as [res st] eqn:Hrun.
    simpl in Hc. subst res.
    destruct (run_inv _ _ _ _ Hrun)
      as (h & e0 & e1 & e2 & e3 & e4 & rest & fs & Hr & Hup).
    eexists _, fs. split; [exact Hr|]. split; [simpl; lia|exact Hup].
  - intros ([h es] & fs & Hr & Hlen & Hup).
    destruct es as [|e0 [|e1 [|e2 [|e3 [|e4 rest]]]]]; simpl in Hlen; try lia.
    pose proof (run_reaches _ _ _ _ _ _ _ _ _ _ Hr Hup) as Hrun.
    simpl in Hrun. rewrite Hrun. simpl. eauto.
Qed.

(** X2: on a first frame without information elements the script stops at
    line 28 with the error of a missing layer; it has shown the frame once
    and changed nothing in the loaded sequence. *)
Theorem no_element_stops_unchanged (rdpcap : str -> exn + list Frame)
    (up : str -> bool) (f0 : Frame) (fs : list Frame) :
  rdpcap "base_packet.pcapng" = inr (f0 :: fs) -> elts f0 = [] ->
  run rdpcap up =
    (inl LayerNotFound, {| heap := f0 :: fs; stdout := [Dump f0] |}).
Proof.
  intros Hr He. destruct f0 as [h es]. simpl in He. subst es.
  unfold run, script, load_block.
  unfold bind at 1. unfold bind at 1. unfold lift at 1. rewrite Hr.
  reflexivity.
Qed.

Lemma no_element_stops_unchanged_witness :
  run (fun _ => inr [ex_frame0; ex_frame]) (fun _ => true) =
    (inl LayerNotFound,
     {| heap := [ex_frame0; ex_frame]; stdout := [Dump ex_frame0] |}).
Proof.
  apply (no_element_stops_unchanged (fun _ => inr [ex_frame0; ex_frame])
           (fun _ => true) ex_frame0 [ex_frame]); reflexivity.
Defined.





(** ** The frame that is sent *)

(** The run of the script on a capture whose first frame is [f0], when it
    reaches [sendp] with the call [c]. *)
Lemma run_sent rdpcap up c st fs f0 :
  run rdpcap up = (inr c, st) ->
  rdpcap "base_packet.pcapng" = inr fs -> fs !! 0%nat = Some f0 ->
  exists e0 e1 e2 e3 e4 rest,
    elts f0 = e0 :: e1 :: e2 :: e3 :: e4 :: rest /\
    c = {| sent :=
             {| hdr := with_addr2 "40:e3:d6:bf:dd:01" (hdr f0);
                elts := e1 :: {| ID := SSID; len := 4; info := "ABCD" |}
                        :: e2 :: e3 :: with_info HR_payload e4 :: rest |};
           on_iface := iface; loop := 1; inter_ms := 100 |} /\
    stdout st = [ Dump f0;
                  Line ("SSID " +:+ str_mul "A" 32);
                  Line "AP MAC: 40:e3:d6:bf:dd:01";
                  Line "Len: 32";
                  Dump (sent c) ].
Proof.
  intros Hrun Hfs Hf0.
  destruct (run_inv _ _ _ _ Hrun)
    as (h & e0 & e1 & e2 & e3 & e4 & rest & fs' & Hr & Hup).
  pose proof (run_reaches _ _ _ _ _ _ _ _ _ _ Hr Hup) as Hrun'.
  simpl in Hrun'. rewrite Hrun in Hrun'. injection Hrun' as -> ->.
  rewrite Hr in Hfs. injection Hfs as <-. simpl in Hf0. injection Hf0 as <-.
  exists e0, e1, e2, e3, e4, rest. repeat split.
Qed.

(** X5: the frame handed to [sendp] has as many information elements as
    the captured frame; its header is the captured one with the second
    address replaced; its element 0 is the captured element 1; the elements
    at indices 2, 3 and from 5 on are the captured ones; and the call names
    the interface "wlp2s0" with [loop=1] and an interval of 100 ms. *)
Theorem sent_frame_shape (rdpcap : str -> exn + list Frame)
    (up : str -> bool) (c : sendp_call) (st : State)
    (fs : list Frame) (f0 : Frame) :
  run rdpcap up = (inr c, st) ->
  rdpcap "base_packet.pcapng" = inr fs -> fs !! 0%nat = Some f0 ->
  length (elts (sent c)) = length (elts f0) /\
  hdr (sent c) = with_addr2 "40:e3:d6:bf:dd:01" (hdr f0) /\
  elts (sent c) !! 0%nat = elts f0 !! 1%nat /\
  (forall k, (2 <= k)%nat -> k <> 4%nat ->
     elts (sent c) !! k = elts f0 !! k) /\
  on_iface c = "wlp2s0" /\ loop c = 1 /\ inter_ms c = 100.
Proof.
  intros Hrun Hfs Hf0.
  destruct (run_sent _ _ _ _ _ _ Hrun Hfs Hf0)
    as (e0 & e1 & e2 & e3 & e4 & rest & He & -> & _).
  rewrite He. simpl. repeat split.
  intros [|[|[|[|[|k]]]]] Hk H4; try lia; reflexivity.
Qed.

Lemma sent_frame_shape_witness :
  length (elts ex_sent) = length (elts ex_frame) /\
  hdr ex_sent = with_addr2 "40:e3:d6:bf:dd:01" (hdr ex_frame) /\
  elts ex_sent !! 0%nat = elts ex_frame !! 1%nat /\
  (forall k, (2 <= k)%nat -> k <> 4%nat ->
     elts ex_sent !! k = elts ex_frame !! k) /\
  on_iface ex_call = "wlp2s0" /\ loop ex_call = 1 /\ inter_ms ex_call = 100.
Proof.
  exact (sent_frame_shape (fun _ => inr [ex_frame]) (fun _ => true)
           ex_call ex_final [ex_frame] ex_frame ex_run eq_refl eq_refl).
Defined.

(** The script reads the capture at one path only. *)
Lemma run_ext rdpcap (fs : exn + list Frame) up :
  rdpcap "base_packet.pcapng" = fs -> run rdpcap up = run (fun _ => fs) up.
Proof.
  intros Hr. unfold run, script, load_block.
  unfold bind at 1. unfold bind at 1. unfold lift at 1.
  rewrite Hr. reflexivity.
Qed.

(** X6: whatever the capture holds in element 0 of its first frame, the
    outcome of the script is the same: two captures that differ in nothing
    but that element make the script end in the same error or in the same
    [sendp] call with the same frame. *)
Theorem outcome_ignores_element0 (rdpcap rdpcap' : str -> exn + list Frame)
    (up : str -> bool) (h : Dot11) (e0 e0' : Dot11Elt)
    (rest : list Dot11Elt) (fs : list Frame) :
  rdpcap "base_packet.pcapng" = inr ({| hdr := h; elts := e0 :: rest |} :: fs) ->
  rdpcap' "base_packet.pcapng" = inr ({| hdr := h; elts := e0' :: rest |} :: fs) ->
  fst (run rdpcap up) = fst (run rdpcap' up).
Proof.
  intros Hr Hr'.
  rewrite (run_ext rdpcap _ up Hr), (run_ext rdpcap' _ up Hr').
  unfold run, script, send_block. destruct (up iface);
    destruct rest as [|e1 [|e2 [|e3 [|e4 rest]]]]; reflexivity.
Qed.

Lemma outcome_ignores_element0_witness :
  fst (run (fun _ => inr [ex_frame]) (fun _ => true)) =
  fst (run (fun _ => inr [ {| hdr := ex_hdr;
                              elts := mkElt 221 3 "abc" :: tail (elts ex_frame) |} ])
         (fun _ => true)).
Proof.
  exact (outcome_ignores_element0
           (fun _ => inr [ex_frame])
           (fun _ => inr [ {| hdr := ex_hdr;
                              elts := mkElt 221 3 "abc" :: tail (elts ex_frame) |} ])
           (fun _ => true) ex_hdr (mkElt 0 4 "home") (mkElt 221 3 "abc")
           (tail (elts ex_frame)) [] eq_refl eq_refl).
Defined.



(** ** What the edits keep *)

(** X8: if every element of the captured frame has a length field equal to
    the size of its payload, so has every element of the sent frame except
    the one at index 4: the script's own constants agree ("ABCD" with 4),
    and line 46 is the only place where it parts payload and length. *)
Theorem inconsistent_only_at_4 (rdpcap : str -> exn + list Frame)
    (up : str -> bool) (c : sendp_call) (st : State)
    (fs : list Frame) (f0 : Frame) :
  run rdpcap up = (inr c, st) ->
  rdpcap "base_packet.pcapng" = inr fs -> fs !! 0%nat = Some f0 ->
  Forall consistent (elts f0) ->
  forall i e, i <> 4%nat -> elts (sent c) !! i = Some e -> consistent e.
Proof.
  intros Hrun Hfs Hf0 Hall i e Hi He.
  destruct (run_sent _ _ _ _ _ _ Hrun Hfs Hf0)
    as (e0 & e1 & e2 & e3 & e4 & rest & Hes & -> & _).
  rewrite Hes in Hall. simpl in He.
  destruct i as [|[|[|[|[|i]]]]]; try congruence; simpl in He.
  - injection He as <-. exact (Forall_lookup_1 _ _ 1%nat _ Hall eq_refl).
  - injection He as <-. reflexivity.
  - injection He as <-. exact (Forall_lookup_1 _ _ 2%nat _ Hall eq_refl).
  - injection He as <-. exact (Forall_lookup_1 _ _ 3%nat _ Hall eq_refl).
  - exact (Forall_lookup_1 _ _ (5 + i)%nat _ Hall He).
Qed.

Lemma inconsistent_only_at_4_witness :
  consistent {| ID := 1; len := 2; info := "ab" |} /\
  consistent {| ID := 7; len := 1; info := "q" |}.
Proof.
  assert (Hall : Forall consistent (elts ex_frame))
    by (repeat (constructor; [reflexivity|]); constructor).
  split.
  - apply (inconsistent_only_at_4 (fun _ => inr [ex_frame]) (fun _ => true)
             ex_call ex_final [ex_frame] ex_frame ex_run eq_refl eq_refl
             Hall 0%nat); [discriminate|reflexivity].
  - apply (inconsistent_only_at_4 (fun _ => inr [ex_frame]) (fun _ => true)
             ex_call ex_final [ex_frame] ex_frame ex_run eq_refl eq_refl
             Hall 5%nat); [discriminate|reflexivity].
Defined.

(** X9: if every tag and every length field of the captured frame fits a
    byte, so does every one of the sent frame: the script writes into these
    fields only the constants 0, 4 and 32 and values read from the frame. *)
Theorem sent_fields_fit_bytes (rdpcap : str -> exn + list Frame)
    (up : str -> bool) (c : sendp_call) (st : State)
    (fs : list Frame) (f0 : Frame) :
  run rdpcap up = (inr c, st) ->
  rdpcap "base_packet.pcapng" = inr fs -> fs !! 0%nat = Some f0 ->
  Forall byte_fields (elts f0) ->
  Forall byte_fields (elts (sent c)).
Proof.
  intros Hrun Hfs Hf0 Hall.
  destruct (run_sent _ _ _ _ _ _ Hrun Hfs Hf0)
    as (e0 & e1 & e2 & e3 & e4 & rest & Hes & -> & _).
  rewrite Hes in Hall. simpl.
  inversion Hall as [|? ? H0 Hall1]; subst.
  inversion Hall1 as [|? ? H1 Hall2]; subst.
  inversion Hall2 as [|? ? H2 Hall3]; subst.
  inversion Hall3 as [|? ? H3 Hall4]; subst.
  inversion Hall4 as [|? ? H4 Hall5]; subst.
  constructor; [exact H1|].
  constructor; [split; unfold SSID; simpl; lia|].
  constructor; [exact H2|]. constructor; [exact H3|].
  constructor; [exact H4|exact Hall5].
Qed.

Lemma sent_fields_fit_bytes_witness : Forall byte_fields (elts ex_sent).
Proof.
  apply (sent_fields_fit_bytes (fun _ => inr [ex_frame]) (fun _ => true)
           ex_call ex_final [ex_frame] ex_frame ex_run eq_refl eq_refl).
  repeat (constructor; [split; simpl; lia|]). constructor.
Defined.

(** ** The list of frames of the closing example *)

Lemma deepcopy_ok r s f :
  heap s !! r = Some f ->
  deepcopy r s =
    (inr (length (heap s)), {| heap := heap s ++ [f]; stdout := stdout s |}).
Proof.
  intros Hf. unfold deepcopy.
  now rewrite (bind_inr _ _ _ _ _ (deref_ok _ _ _ Hf)).
Qed.

(** Assigning to element [k] of the newest object of the store. *)
Lemma setelt_last h out f k upd e :
  elts f !! k = Some e ->
  setelt (length h) k upd {| heap := h ++ [f]; stdout := out |} =
    (inr tt, {| heap := h ++ [with_elts (<[k := upd e]> (elts f)) f];
                stdout := out |}).
Proof.
  intros He.
  rewrite (setelt_ok (length h) k upd _ f e);
    [|simpl; now apply list_lookup_middle|exact He].
  simpl. rewrite insert_app_r_alt by lia. now rewrite Nat.sub_diag.
Qed.

Lemma fill_ls_run urandom frame f e0 rest n (He : elts f = e0 :: rest) :
  forall i ls s,
  heap s !! frame = Some f ->
  fill_ls urandom frame n i ls s =
    (inr (ls ++ seq (length (heap s)) n),
     {| heap := heap s ++
          ((fun j => with_elts
                       ({| ID := ID e0; len := 32; info := urandom j |} :: rest)
                       f) <$> seq i n);
        stdout := stdout s |}).
Proof.
  destruct f as [h es]. simpl in He. subst es.
  induction n as [|n IH]; intros i ls s Hf.
  - simpl. unfold ret. rewrite !app_nil_r. now destruct s.
  - cbn [fill_ls].
    rewrite (bind_inr _ _ _ _ _ (deepcopy_ok _ _ _ Hf)).
    unfold set_info, set_len.
    erewrite bind_inr; [|apply setelt_last; reflexivity].
    erewrite bind_inr; [|apply setelt_last; reflexivity].
    rewrite IH; [|simpl; rewrite lookup_app_l;
                   [exact Hf|eapply lookup_lt_Some, Hf]].
    simpl. rewrite length_app. simpl. rewrite Nat.add_1_r.
    rewrite <- !app_assoc. reflexivity.
Qed.

(** X10: the loop of lines 59-63, run on a frame with at least one
    information element, returns a list of 1000 references to new, distinct
    objects and prints nothing; because each round works on a deep copy, no
    object that was in the store before, the base frame included, is
    changed; the [j]-th new frame is the base frame with the payload of
    element 0 replaced by the [j]-th random string and its length by 32,
    which is consistent since [os.urandom(32)] returns 32 bytes. *)
Theorem make_ls_copies (urandom : nat -> str) (s : State) (frame : ref)
    (f : Frame) (e0 : Dot11Elt) (rest : list Dot11Elt) :
  heap s !! frame = Some f -> elts f = e0 :: rest ->
  (forall j, String.length (urandom j) = 32%nat) ->
  exists ls s',
    make_ls urandom frame s = (inr ls, s') /\
    length ls = 1000%nat /\ NoDup ls /\
    stdout s' = stdout s /\
    length (heap s') = (length (heap s) + 1000)%nat /\
    (forall r, (r < length (heap s))%nat -> heap s' !! r = heap s !! r) /\
    (forall j, (j < 1000)%nat ->
       ls !! j = Some (length (heap s) + j)%nat /\
       exists f',
         heap s' !! (length (heap s) + j)%nat = Some f' /\
         hdr f' = hdr f /\
         elts f' = {| ID := ID e0; len := 32; info := urandom j |} :: rest /\
         Forall consistent (take 1 (elts f'))).
Proof.
  intros Hf He Hu.
  eexists _, _. split; [exact (fill_ls_run _ _ _ _ _ 1000 He 0%nat [] s Hf)|].
  cbn [heap stdout app].
  split; [apply length_seq|].
  split; [apply NoDup_seq|].
  split; [reflexivity|].
  split; [now rewrite length_app, length_fmap, length_seq|].
  split; [intros r Hr; now apply lookup_app_l|].
  intros j Hj. split; [now apply lookup_seq_lt|].
  eexists. split.
  { rewrite lookup_app_r by lia.
    replace (length (heap s) + j - length (heap s))%nat with j by lia.
    rewrite list_lookup_fmap, lookup_seq_lt by exact Hj. reflexivity. }
  simpl. repeat split. constructor; [|constructor].
  unfold consistent. simpl. rewrite Hu. reflexivity.
Qed.

Lemma make_ls_copies_witness :
  exists ls s',
    make_ls (fun _ => str_mul "A" 32) 0%nat
      {| heap := [ex_frame]; stdout := [] |} = (inr ls, s') /\
    length ls = 1000%nat /\ NoDup ls /\
    stdout s' = [] /\
    length (heap s') = (1 + 1000)%nat /\
    (forall r, (r < 1)%nat -> heap s' !! r = [ex_frame] !! r) /\
    (forall j, (j < 1000)%nat ->
       ls !! j = Some (1 + j)%nat /\
       exists f',
         heap s' !! (1 + j)%nat = Some f' /\
         hdr f' = ex_hdr /\
         elts f' = {| ID := 0; len := 32; info := str_mul "A" 32 |}
                   :: tail (elts ex_frame) /\
         Forall consistent (take 1 (elts f'))).
Proof.
  exact (make_ls_copies (fun _ => str_mul "A" 32)
           {| heap := [ex_frame]; stdout := [] |} 0%nat ex_frame
           (mkElt 0 4 "home") (tail (elts ex_frame))
           eq_refl eq_refl (fun _ => eq_refl)).
Defined.
